(** * ConvNeXt on IPUs: a shallow embedding of
      optimum/graphcore/models/convnext/modeling_convnext.py

    Python exceptions are the [Err] side of a small error monad; tensors are
    symbolic expressions, except for [SerializedLinear.forward], whose
    arithmetic is modelled over integer matrices. *)

From Stdlib Require Import ZArith QArith Lia Sorted.
From stdpp Require Import base list gmap strings.

Open Scope string_scope.

(* ------------------------------------------------------------------ *)
(** ** Python values and exceptions *)

Inductive exn := KeyError | IndexError | TypeError.

Inductive result (A : Type) : Type :=
| Ok (a : A)
| Err (e : exn).
Arguments Ok {A} a.
Arguments Err {A} e.

Global Instance result_ret : MRet result := fun A a => Ok a.
Global Instance result_bind : MBind result := fun A B f m =>
  match m with Ok a => f a | Err e => Err e end.

(** Python objects the module tests for truthiness. *)
Inductive pyobj :=
| PyNone
| PyBool (b : bool)
| PyInt (z : Z)
| PyStr (s : string)
| PyBoundMethod (name : string).

Definition truthy (o : pyobj) : bool :=
  match o with
  | PyNone => false
  | PyBool b => b
  | PyInt z => negb (Z.eqb z 0)
  | PyStr s => negb (String.eqb s "")
  | PyBoundMethod _ => true
  end.

(** A name that may be [None]: the result of [fb_to_hf_name]. *)
Definition name_obj (n : option string) : pyobj :=
  match n with Some s => PyStr s | None => PyNone end.

(** Python's [pat in s] on strings. *)
Fixpoint str_contains (pat s : string) : bool :=
  String.prefix pat s ||
  match s with
  | EmptyString => false
  | String _ s' => str_contains pat s'
  end.

(** [d[k]] on a dict kept as an ordered association list (insertion order
    is iteration order, as for a Python dict). *)
Fixpoint assoc_get {V} (d : list (string * V)) (k : string) : result V :=
  match d with
  | [] => Err KeyError
  | (k', v) :: d' => if String.eqb k k' then Ok v else assoc_get d' k
  end.

(** [d[k]] on a [state_dict] (string keys) with a key that may be [None]:
    [None] is never a key of a state dict. *)
Definition state_dict_get {V} (d : gmap string V) (k : option string) : result V :=
  match k with
  | Some s => match d !! s with Some v => Ok v | None => Err KeyError end
  | None => Err KeyError
  end.

(** [lst[i]] for a non-negative index. *)
Definition list_index {V} (l : list V) (i : nat) : result V :=
  match nth_error l i with Some v => Ok v | None => Err IndexError end.

(* ------------------------------------------------------------------ *)
(** ** [load_weights_from_fb_model] (lines 35-51) *)

(** Modelled from the spec: [fb_to_hf_name] of [fb_to_hf_map_util] (not in
    src/), "a static name-substitution function" from a foreign checkpoint
    key to a parameter name of the model, which may find no mapping (then it
    yields [None]). The translator is stated for every such function. *)
Definition name_map := string -> option string.

Section LoadWeights.
Context {T : Type}.
Variable fb_to_hf_name : name_map.
Variable load_classifier : bool.

(** The body of the [for fb_tensor_name in fb_state_dict.keys()] loop. *)
Definition load_step (fb_state_dict : list (string * T))
    (current_state_dict : gmap string T) (new_state_dict : gmap (option string) T)
    (fb_tensor_name : string) : result (gmap (option string) T) :=
  let hf_tensor_name := fb_to_hf_name fb_tensor_name in
  if truthy (name_obj hf_tensor_name)
     && (negb (str_contains "head" fb_tensor_name) || load_classifier)
  then
    v ← assoc_get fb_state_dict fb_tensor_name;
    Ok (<[hf_tensor_name := v]> new_state_dict)
  else
    v ← state_dict_get current_state_dict hf_tensor_name;
    Ok (<[hf_tensor_name := v]> new_state_dict).

Fixpoint load_loop (fb_state_dict : list (string * T))
    (current_state_dict : gmap string T) (keys : list string)
    (new_state_dict : gmap (option string) T) : result (gmap (option string) T) :=
  match keys with
  | [] => Ok new_state_dict
  | k :: ks =>
      nsd ← load_step fb_state_dict current_state_dict new_state_dict k;
      load_loop fb_state_dict current_state_dict ks nsd
  end.

(** [torch.load(fb_model_path)] is the checkpoint [ckpt]; [model.state_dict()]
    is [current_state_dict]. The result is the dict handed to
    [model.load_state_dict]. *)
Definition load_weights_from_fb_model (ckpt : list (string * list (string * T)))
    (current_state_dict : gmap string T) : result (gmap (option string) T) :=
  fb_state_dict ← assoc_get ckpt "model";
  load_loop fb_state_dict current_state_dict (map fst fb_state_dict) ∅.

End LoadWeights.

(* ------------------------------------------------------------------ *)
(** ** [SerializedLinear] (lines 53-80) *)

Inductive MatMulSerializationMode := Disabled | ReducingDim.

Record SerializedLinear := {
  in_features : nat;
  out_features : nat;
  ser_mode : MatMulSerializationMode
}.

(** [SerializedLinear.__init__] *)
Definition SerializedLinear_init (in_f out_f : nat) : SerializedLinear :=
  {| in_features := in_f;
     out_features := out_f;
     ser_mode := if (2000 <? in_f)%nat || (2000 <? out_f)%nat
                 then ReducingDim else Disabled |}.

(** Integer matrices, as lists of rows. *)
Fixpoint dot (x y : list Z) : Z :=
  match x, y with
  | a :: x', b :: y' => a * b + dot x' y'
  | _, _ => 0
  end%Z.

Definition col (B : list (list Z)) (j : nat) : list Z := map (fun r => nth j r 0%Z) B.

Definition ncols (B : list (list Z)) : nat :=
  match B with r :: _ => length r | [] => 0 end.

(** [A @ B] with [w] output columns. *)
Definition mm (A B : list (list Z)) (w : nat) : list (list Z) :=
  map (fun r => map (fun j => dot r (col B j)) (seq 0 w)) A.

Definition matmul (A B : list (list Z)) : list (list Z) := mm A B (ncols B).

(** [W.t()] *)
Definition transpose (W : list (list Z)) : list (list Z) :=
  map (col W) (seq 0 (ncols W)).

Definition madd (M N : list (list Z)) : list (list Z) :=
  map (fun '(r, s) => map (fun '(a, b) => a + b)%Z (combine r s)) (combine M N).

Definition zero_mat (n w : nat) : list (list Z) := repeat (repeat 0%Z w) n.

(** [x[lo:hi]] *)
Definition slice {V} (lo hi : nat) (l : list V) : list V := firstn (hi - lo) (skipn lo l).

(** [poptorch.serializedMatMul(A, B, mode, factor)]: with [ReducingDim] the
    reducing dimension (the rows of [B]) is cut into [factor] consecutive
    chunks and the product is the sum of the [factor] partial products. *)
Definition serializedMatMul (A B : list (list Z)) (mode : MatMulSerializationMode)
    (factor : nat) : list (list Z) :=
  match mode with
  | Disabled => matmul A B
  | ReducingDim =>
      let k := length B in
      let w := ncols B in
      let bound i := (i * k / factor)%nat in
      fold_left (fun acc i =>
          madd acc (mm (map (slice (bound i) (bound (S i))) A)
                       (slice (bound i) (bound (S i)) B) w))
        (seq 0 factor) (zero_mat (length A) w)
  end.

(** [M + bias], the bias broadcast over the rows. *)
Definition add_bias (M : list (list Z)) (bias : list Z) : list (list Z) :=
  map (fun r => map (fun '(a, b) => a + b)%Z (combine r bias)) M.

(** [SerializedLinear.forward] *)
Definition SerializedLinear_forward (self : SerializedLinear)
    (weight : list (list Z)) (bias : list Z) (input : list (list Z)) : list (list Z) :=
  add_bias (serializedMatMul input (transpose weight) (ser_mode self) 2) bias.

(** The layer it replaces: [nn.Linear.forward], [input @ weight.t() + bias]. *)
Definition Linear_forward (weight : list (list Z)) (bias : list Z)
    (input : list (list Z)) : list (list Z) :=
  add_bias (matmul input (transpose weight)) bias.

(* ------------------------------------------------------------------ *)
(** ** Configuration *)

(** The model configuration: the fields this module touches by name (an
    attribute tested with [hasattr] is an [option]), and every other
    attribute of the configuration object ([hidden_sizes], [depths],
    [drop_path_rate], ...), by name. *)
Record config := {
  num_labels : Z;
  head_init_scale : option Q;
  pretrained_weights_path : option string;
  problem_type : option string;
  smoothing : option Q;
  layer_scale_init_value : Q;
  hidden_act : string;
  use_return_dict : bool;
  other_fields : list (string * pyobj)
}.

(** The IPU configuration: the two fields this module touches by name, and
    every other attribute of the object, by name. *)
Record ipu_config := {
  layers_per_ipu : list Z;
  ipus_per_replica : Z;
  ipu_other_fields : list (string * pyobj)
}.

Definition set_problem_type (c : config) (p : option string) : config :=
  {| num_labels := num_labels c;
     head_init_scale := head_init_scale c;
     pretrained_weights_path := pretrained_weights_path c;
     problem_type := p;
     smoothing := smoothing c;
     layer_scale_init_value := layer_scale_init_value c;
     hidden_act := hidden_act c;
     use_return_dict := use_return_dict c;
     other_fields := other_fields c |}.

(** The eight fields the spec lists. *)
Definition agree8 (c1 : config * ipu_config) (c2 : config * ipu_config) : Prop :=
  num_labels c1.1 = num_labels c2.1 /\
  head_init_scale c1.1 = head_init_scale c2.1 /\
  pretrained_weights_path c1.1 = pretrained_weights_path c2.1 /\
  layers_per_ipu c1.2 = layers_per_ipu c2.2 /\
  ipus_per_replica c1.2 = ipus_per_replica c2.2 /\
  problem_type c1.1 = problem_type c2.1 /\
  smoothing c1.1 = smoothing c2.1 /\
  layer_scale_init_value c1.1 = layer_scale_init_value c2.1.

(* ------------------------------------------------------------------ *)
(** ** [extend_hf_convnext_init] (lines 21-30) and [replace_block_init]
       (lines 82-97) *)

(** What [extend_hf_convnext_init] does after the library's own
    initializer: the factor the classifier is scaled by, and the checkpoint
    path handed to [load_weights_from_fb_model]. *)
Record init_actions := {
  classifier_scale : option Q;
  load_from : option string
}.

Definition extend_hf_convnext_init (c : config) : init_actions :=
  {| classifier_scale :=
       match head_init_scale c with
       | Some s => if (0 <? num_labels c)%Z then Some s else None
       | None => None
       end;
     load_from :=
       match pretrained_weights_path c with
       | Some p => if truthy (PyStr p) then Some p else None
       | None => None
       end |}.

Record ConvNextLayer := {
  dwconv_dim : Z;
  layernorm_dim : Z;
  pwconv1 : SerializedLinear;
  act : string;                         (** [ACT2FN[config.hidden_act]] *)
  pwconv2 : SerializedLinear;
  layer_scale_parameter : option (Q * Z); (** [value * torch.ones(dim)] *)
  drop_path : option Q                  (** [None] for [nn.Identity()] *)
}.

Definition replace_block_init (c : config) (dim : nat) (drop_path_rate : Q) : ConvNextLayer :=
  {| dwconv_dim := Z.of_nat dim;
     layernorm_dim := Z.of_nat dim;
     pwconv1 := SerializedLinear_init dim (4 * dim);
     act := hidden_act c;
     pwconv2 := SerializedLinear_init (4 * dim) dim;
     layer_scale_parameter :=
       if Qle_bool (layer_scale_init_value c) 0 then None
       else Some (layer_scale_init_value c, Z.of_nat dim);
     drop_path := if Qle_bool drop_path_rate 0 then None else Some drop_path_rate |}.

(* ------------------------------------------------------------------ *)
(** ** [PipelinedConvNextForImageClassification.forward] (lines 146-196) *)

Inductive dtype := Long | Int | Short | UInt8 | Half | Float | Double | Bool.

Definition dtype_eqb (a b : dtype) : bool :=
  match a, b with
  | Long, Long | Int, Int | Short, Short | UInt8, UInt8
  | Half, Half | Float, Float | Double, Double | Bool, Bool => true
  | _, _ => false
  end.

Record labels := {
  labels_dtype : dtype;
  labels_shape : list Z
}.

(** Symbolic tensors: the classifier's logits, the labels, and the views
    the loss branches take of them. *)
Inductive texpr :=
| Logits
| Labels (l : labels)
| Squeeze (t : texpr)
| View (t : texpr) (shape : list Z).

(** The loss objects the module builds (torch.nn and timm). *)
Inductive loss_fn :=
| MSELoss_fn
| CrossEntropyLoss_fn (label_smoothing : Q)
| SoftTargetCrossEntropy_fn.

(** Loss values: a loss object applied to two tensors, and
    [poptorch.identity_loss]. *)
Inductive loss_expr :=
| MSELoss (input target : texpr)
| CrossEntropyLoss (label_smoothing : Q) (input target : texpr)
| SoftTargetCrossEntropy (input target : texpr)
| IdentityLoss (l : loss_expr) (reduction : string).

Definition apply_loss (f : loss_fn) (input target : texpr) : loss_expr :=
  match f with
  | MSELoss_fn => MSELoss input target
  | CrossEntropyLoss_fn s => CrossEntropyLoss s input target
  | SoftTargetCrossEntropy_fn => SoftTargetCrossEntropy input target
  end.

(** The state forward reads and writes: the configuration (shared with the
    model's [self.config]), the IPU configuration and the training flag
    ([self.training]). [self.num_labels] is [config.num_labels], as the
    library's initializer sets it. *)
Record model := {
  m_config : config;
  m_ipu_config : ipu_config;
  m_training : bool
}.

Definition set_config (m : model) (c : config) : model :=
  {| m_config := c; m_ipu_config := m_ipu_config m; m_training := m_training m |}.

(** [self.eval]: the bound method [nn.Module.eval], whatever the mode. *)
Definition self_eval (m : model) : pyobj := PyBoundMethod "eval".

(** Lines 162-171: the problem type chosen when none is set. *)
Definition infer_problem_type (n_labels : Z) (d : dtype) : string :=
  if Z.eqb n_labels 1 then "regression"
  else if (1 <? n_labels)%Z && (dtype_eqb d Long || dtype_eqb d Int)
  then "single_label_classification"
  else "multi_label_classification".

(** Lines 173-187: the [if/elif] chain on [self.config.problem_type]. *)
Definition loss_of_problem_type (m : model) (p : string) (smoothing_v : Q)
    (l : labels) : option loss_expr :=
  let n := num_labels (m_config m) in
  if String.eqb p "regression" then
    let loss_fct := MSELoss_fn in
    if Z.eqb n 1 then Some (apply_loss loss_fct (Squeeze Logits) (Squeeze (Labels l)))
    else Some (apply_loss loss_fct Logits (Labels l))
  else if String.eqb p "single_label_classification" then
    let loss_fct := CrossEntropyLoss_fn smoothing_v in
    let loss_fct := if truthy (self_eval m) then CrossEntropyLoss_fn 0%Q else loss_fct in
    Some (apply_loss loss_fct (View Logits [-1; n]%Z) (View (Labels l) [-1]%Z))
  else if String.eqb p "multi_label_classification" then
    let loss_fct := SoftTargetCrossEntropy_fn in
    let loss := apply_loss loss_fct Logits (Labels l) in
    Some (IdentityLoss loss "none")
  else None.

Record output := {
  out_loss : option loss_expr;
  out_logits : texpr;
  out_return_dict : bool
}.

(** Lines 157-159: [smoothing = 0.0], then [config.smoothing] if present. *)
Definition smoothing_value (c : config) : Q :=
  match smoothing c with Some s => s | None => 0%Q end.

Definition forward (m : model) (lbls : option labels) (return_dict : option bool)
    : model * output :=
  let return_dict := match return_dict with
                     | Some b => b
                     | None => use_return_dict (m_config m)
                     end in
  let smoothing_v := smoothing_value (m_config m) in
  match lbls with
  | None => (m, {| out_loss := None; out_logits := Logits; out_return_dict := return_dict |})
  | Some l =>
      let m := match problem_type (m_config m) with
               | None =>
                   set_config m (set_problem_type (m_config m)
                     (Some (infer_problem_type (num_labels (m_config m)) (labels_dtype l))))
               | Some _ => m
               end in
      let loss := match problem_type (m_config m) with
                  | Some p => loss_of_problem_type m p smoothing_v l
                  | None => None
                  end in
      (m, {| out_loss := loss; out_logits := Logits; out_return_dict := return_dict |})
  end.

(** Successive forward calls on one model. *)
Fixpoint run_forwards (m : model) (calls : list (option labels * option bool))
    : list (model * output) :=
  match calls with
  | [] => []
  | (l, rd) :: cs =>
      let '(m', o) := forward m l rd in (m', o) :: run_forwards m' cs
  end.

(* ------------------------------------------------------------------ *)
(** ** [parallelize] (lines 99-144) *)

(** Modelled from the spec: [get_layer_ipu] of [modeling_utils] (not in
    src/), the per-layer unit index "derived from a precomputed per-unit
    layer count table": unit [u] is repeated [layers_per_ipu[u]] times, in
    unit order (a count below zero gives no layer, as [[u] * n] does). *)
Fixpoint get_layer_ipu_from (ipu : Z) (lpi : list Z) : list Z :=
  match lpi with
  | [] => []
  | n :: ns => (repeat ipu (Z.to_nat n) ++ get_layer_ipu_from (ipu + 1) ns)%list
  end.

Definition get_layer_ipu (lpi : list Z) : list Z := get_layer_ipu_from 0 lpi.

(** A [poptorch.BeginBlock] annotation of an encoder layer. *)
Record tag {L : Type} := {
  tag_stage : nat;
  tag_layer_idx : nat;
  tag_layer : L;
  tag_ipu : Z
}.
Arguments tag : clear implicits.

Section Encoder.
Context {L : Type}.

(** The inner loop [for stage_layer_idx, layer in enumerate(stage.layers)],
    threading the annotations made so far and [global_layer_idx]. *)
Fixpoint place_layers (encoder_layer_ipu : list Z) (stage_nr : nat) (layers : list L)
    (stage_layer_idx : nat) (st : list (tag L) * nat) : result (list (tag L) * nat) :=
  match layers with
  | [] => Ok st
  | layer :: rest =>
      let '(acc, global_layer_idx) := st in
      ipu_id ← list_index encoder_layer_ipu global_layer_idx;
      let t := {| tag_stage := stage_nr; tag_layer_idx := stage_layer_idx;
                  tag_layer := layer; tag_ipu := ipu_id |} in
      place_layers encoder_layer_ipu stage_nr rest (S stage_layer_idx)
        ((acc ++ [t])%list, S global_layer_idx)
  end.

(** The outer loop [for stage_nr, stage in enumerate(self.convnext.encoder.stages)]. *)
Fixpoint place_stages (encoder_layer_ipu : list Z) (stages : list (list L))
    (stage_nr : nat) (st : list (tag L) * nat) : result (list (tag L) * nat) :=
  match stages with
  | [] => Ok st
  | stage :: rest =>
      st ← place_layers encoder_layer_ipu stage_nr stage 0 st;
      place_stages encoder_layer_ipu rest (S stage_nr) st
  end.

Definition encoder_placement (encoder_layer_ipu : list Z) (stages : list (list L))
    : result (list (tag L) * nat) :=
  place_stages encoder_layer_ipu stages 0 ([], 0%nat).

(** Every encoder layer with its stage and its index in the stage, in the
    order of the nested loops. *)
Fixpoint layer_positions (stage_nr : nat) (layers : list L) (i : nat) : list (nat * nat * L) :=
  match layers with
  | [] => []
  | l :: ls => (stage_nr, i, l) :: layer_positions stage_nr ls (S i)
  end.

Fixpoint stage_positions (stages : list (list L)) (stage_nr : nat) : list (nat * nat * L) :=
  match stages with
  | [] => []
  | st :: rest => (layer_positions stage_nr st 0 ++ stage_positions rest (S stage_nr))%list
  end.

End Encoder.

Record placement {L : Type} := {
  embeddings_ipu : Z;
  encoder_tags : list (tag L);
  layernorm_ipu : option Z;
  classifier_ipu : option Z
}.
Arguments placement : clear implicits.

(** [ConvNextPipelineMixin.parallelize]. [PipelineMixin.parallelize]
    (the [super()] call, in [modeling_utils]) places no block and is left
    out. *)
Definition mixin_parallelize {L} (ic : ipu_config) (stages : list (list L))
    : result (placement L) :=
  let embeddings := 0%Z in
  let encoder_layer_ipu := get_layer_ipu (layers_per_ipu ic) in
  '(tags, _) ← encoder_placement encoder_layer_ipu stages;
  Ok {| embeddings_ipu := embeddings; encoder_tags := tags;
        layernorm_ipu := None; classifier_ipu := None |}.

(** [PipelinedConvNextForImageClassification.parallelize]: the head goes
    to [ipus_per_replica - 1]. *)
Definition parallelize {L} (ic : ipu_config) (stages : list (list L))
    : result (placement L) :=
  p ← mixin_parallelize ic stages;
  let last_ipu := (ipus_per_replica ic - 1)%Z in
  Ok {| embeddings_ipu := embeddings_ipu p; encoder_tags := encoder_tags p;
        layernorm_ipu := Some last_ipu; classifier_ipu := Some last_ipu |}.

(* ------------------------------------------------------------------ *)
(** ** Concrete inputs *)

(** A fresh 3-class model: no problem type yet, label smoothing 0.1. *)
Definition example_config : config :=
  {| num_labels := 3; head_init_scale := Some (1#1); pretrained_weights_path := None;
     problem_type := None; smoothing := Some (1#10); layer_scale_init_value := (1#1000000);
     hidden_act := "gelu"; use_return_dict := false; other_fields := [] |}.

(** The same configuration with one more attribute, not among the fields
    the module touches by name. *)
Definition example_config_other : config :=
  {| num_labels := 3; head_init_scale := Some (1#1); pretrained_weights_path := None;
     problem_type := None; smoothing := Some (1#10); layer_scale_init_value := (1#1000000);
     hidden_act := "gelu"; use_return_dict := false;
     other_fields := [("depths", PyInt 3)] |}.

Definition example_ipu_config : ipu_config :=
  {| layers_per_ipu := [1; 1]%Z; ipus_per_replica := 1%Z;
     ipu_other_fields := [] |}.

Definition example_model : model :=
  {| m_config := example_config; m_ipu_config := example_ipu_config; m_training := true |}.

Definition example_labels : labels := {| labels_dtype := Long; labels_shape := [4]%Z |}.

(** A name map that covers the stem weight of a ConvNeXt checkpoint and
    nothing else, and a checkpoint with one covered and one uncovered key. *)
Definition example_name_map : name_map :=
  fun k => if String.eqb k "downsample_layers.0.0.weight"
           then Some "convnext.embeddings.patch_embeddings.weight" else None.

Definition example_checkpoint : list (string * list (string * Z)) :=
  [("model", [("downsample_layers.0.0.weight", 7%Z); ("norm.weight", 8%Z)])].

Definition example_state_dict : gmap string Z :=
  <["convnext.embeddings.patch_embeddings.weight" := 1%Z]>
  (<["convnext.layernorm.weight" := 2%Z]> ∅).

(** A name map covering every key of [example_head_checkpoint], which also
    holds a classifier ("head") key. *)
Definition example_full_name_map : name_map :=
  fun k => if String.eqb k "norm.weight" then Some "convnext.layernorm.weight"
           else if String.eqb k "head.weight" then Some "classifier.weight"
           else example_name_map k.

Definition example_head_checkpoint : list (string * list (string * Z)) :=
  [("model", [("downsample_layers.0.0.weight", 7%Z); ("norm.weight", 8%Z);
              ("head.weight", 9%Z)])].

Definition example_head_state_dict : gmap string Z :=
  <["classifier.weight" := 3%Z]> example_state_dict.

Definition example_pipeline_ipu_config : ipu_config :=
  {| layers_per_ipu := [2; 1]%Z; ipus_per_replica := 2%Z;
     ipu_other_fields := [] |}.

(* ================================================================== *)
(** * Lemmas *)

Open Scope list_scope.

(** ** Matrix arithmetic *)

Lemma dot_nil_r (x : list Z) : dot x [] = 0%Z.
Proof. destruct x; reflexivity. Qed.

Lemma dot_split (n : nat) (x y : list Z) :
  dot x y = (dot (firstn n x) (firstn n y) + dot (skipn n x) (skipn n y))%Z.
Proof.
  revert x y; induction n as [|n IH]; intros x y.
  - reflexivity.
  - destruct x as [|a x], y as [|b y]; cbn [firstn skipn dot];
      rewrite ?dot_nil_r; try lia.
    rewrite (IH x y). lia.
Qed.

Lemma dot_firstn_long (n : nat) (x y : list Z) :
  (length y <= n)%nat -> dot (firstn n x) (firstn n y) = dot x y.
Proof.
  intros Hn. rewrite (dot_split n x y).
  rewrite (skipn_all2 y) by lia. rewrite dot_nil_r. lia.
Qed.

Lemma dot_firstn_le (lo hi : nat) (x y : list Z) :
  (lo <= hi)%nat ->
  dot (firstn hi x) (firstn hi y) =
  (dot (firstn lo x) (firstn lo y) + dot (slice lo hi x) (slice lo hi y))%Z.
Proof.
  intros Hle. rewrite (dot_split lo (firstn hi x) (firstn hi y)).
  rewrite !firstn_firstn, !Nat.min_l by lia.
  unfold slice. rewrite !skipn_firstn_comm. reflexivity.
Qed.

Lemma col_slice (lo hi : nat) (B : list (list Z)) (j : nat) :
  col (slice lo hi B) j = slice lo hi (col B j).
Proof. unfold col, slice. rewrite skipn_map, firstn_map. reflexivity. Qed.

Lemma length_col (B : list (list Z)) (j : nat) : length (col B j) = length B.
Proof. unfold col. apply length_map. Qed.

Lemma combine_map_same {X Y Z' : Type} (f : X -> Y) (g : X -> Z') (l : list X) :
  combine (map f l) (map g l) = map (fun x => (f x, g x)) l.
Proof. induction l as [|x l IH]; simpl; [reflexivity | by rewrite IH]. Qed.

Lemma madd_rows (A : list (list Z)) (f g : list Z -> nat -> Z) (w : nat) :
  madd (map (fun r => map (f r) (seq 0 w)) A) (map (fun r => map (g r) (seq 0 w)) A) =
  map (fun r => map (fun j => f r j + g r j)%Z (seq 0 w)) A.
Proof.
  unfold madd. rewrite combine_map_same, map_map.
  apply map_ext; intros r. rewrite combine_map_same, map_map. reflexivity.
Qed.

Lemma zero_mat_rows (A : list (list Z)) (w : nat) :
  zero_mat (length A) w = map (fun r => map (fun j => 0%Z) (seq 0 w)) A.
Proof.
  unfold zero_mat.
  assert (Hrow : repeat 0%Z w = map (fun j => 0%Z) (seq 0 w)).
  { generalize 0%nat. induction w as [|w IH]; intros s; simpl; [done | by rewrite (IH (S s))]. }
  rewrite Hrow. induction A as [|r A IH]; simpl; [done | by rewrite IH].
Qed.

(** [serializedMatMul] computes the plain product in both modes. *)
Lemma serializedMatMul_matmul (A B : list (list Z)) (mode : MatMulSerializationMode)
    (factor : nat) :
  (0 < factor)%nat -> serializedMatMul A B mode factor = matmul A B.
Proof.
  intros Hf. destruct mode; [reflexivity|]. cbn zeta. unfold serializedMatMul.
  set (k := length B). set (w := ncols B).
  set (P := fun i : nat => map (fun r => map (fun j =>
              dot (firstn (i * k / factor) r) (firstn (i * k / factor) (col B j)))
              (seq 0 w)) A).
  assert (Hinv : forall n a,
    fold_left (fun acc i =>
      madd acc (mm (map (slice (i * k / factor) (S i * k / factor)) A)
                   (slice (i * k / factor) (S i * k / factor) B) w))
      (seq a n) (P a) = P (a + n)%nat).
  { induction n as [|n IH]; intros a; simpl.
    - by rewrite Nat.add_0_r.
    - replace (a + S n)%nat with (S a + n)%nat by lia. rewrite <- (IH (S a)). f_equal.
      unfold P, mm. rewrite map_map, madd_rows.
      apply map_ext; intros r. apply map_ext; intros j.
      rewrite col_slice. symmetry. apply dot_firstn_le.
      apply Nat.Div0.div_le_mono; nia. }
  assert (H0 : zero_mat (length A) w = P 0%nat).
  { rewrite zero_mat_rows. unfold P. rewrite Nat.mul_0_l, Nat.Div0.div_0_l. reflexivity. }
  rewrite H0, Hinv. simpl. unfold P, matmul, mm. fold w.
  apply map_ext; intros r. apply map_ext; intros j.
  rewrite Nat.mul_comm, Nat.div_mul by lia.
  apply dot_firstn_long. rewrite length_col. unfold k. lia.
Qed.

(** ** The encoder placement loop *)

Section EncoderLemmas.
Context {L : Type}.

(** The annotations of the positions [pos] with the unit indices [ipus],
    pairwise. *)
Definition zip_tags (pos : list (nat * nat * L)) (ipus : list Z) : list (tag L) :=
  map (fun '((s, i, l), u) =>
         {| tag_stage := s; tag_layer_idx := i; tag_layer := l; tag_ipu := u |})
      (combine pos ipus).

Lemma zip_tags_app (p1 p2 : list (nat * nat * L)) (q1 q2 : list Z) :
  length p1 = length q1 -> zip_tags (p1 ++ p2) (q1 ++ q2) = zip_tags p1 q1 ++ zip_tags p2 q2.
Proof.
  revert q1; induction p1 as [|x p1 IH]; intros [|y q1] Hl; simpl in *; try done.
  unfold zip_tags in *; simpl. rewrite IH by lia. reflexivity.
Qed.

Lemma firstn_plus {V} (n1 n2 : nat) (l : list V) :
  firstn (n1 + n2) l = firstn n1 l ++ firstn n2 (skipn n1 l).
Proof.
  revert l; induction n1 as [|n1 IH]; intros [|x l]; simpl; try done.
  - by rewrite firstn_nil.
  - by rewrite IH.
Qed.

Lemma skipn_nth_error {V} (l : list V) (g : nat) (u : V) :
  nth_error l g = Some u -> skipn g l = u :: skipn (S g) l.
Proof.
  revert l; induction g as [|g IH]; intros [|x l] H; simpl in *; try done.
  - by injection H as ->.
  - by apply IH.
Qed.

Lemma length_layer_positions (s i : nat) (ls : list L) :
  length (layer_positions s ls i) = length ls.
Proof. revert i; induction ls as [|l ls IH]; intros i; simpl; [done | by rewrite IH]. Qed.

Lemma length_firstn_skipn {V} (n g : nat) (l : list V) :
  (g + n <= length l)%nat -> length (firstn n (skipn g l)) = n.
Proof. intros H. rewrite length_firstn, length_skipn. lia. Qed.

(** The inner loop succeeds exactly when the table has an entry for each of
    its layers, and then tags the layers with consecutive entries. *)
Lemma place_layers_spec (table : list Z) (s : nat) (ls : list L) :
  forall i acc g, (g <= length table)%nat ->
  place_layers table s ls i (acc, g) =
    if (g + length ls <=? length table)%nat
    then Ok (acc ++ zip_tags (layer_positions s ls i) (firstn (length ls) (skipn g table)),
             g + length ls)%nat
    else Err IndexError.
Proof.
  induction ls as [|l ls IH]; intros i acc g Hg0; simpl.
  - destruct (Nat.leb_spec (g + 0) (length table)) as [H|H]; [|lia].
    rewrite app_nil_r, Nat.add_0_r. reflexivity.
  - unfold list_index. destruct (nth_error table g) as [u|] eqn:Hg;
      unfold mbind, result_bind.
    + assert (Hlt : (g < length table)%nat) by (apply nth_error_Some; congruence).
      rewrite IH by lia. rewrite (skipn_nth_error _ _ _ Hg), firstn_cons.
      replace (S g + length ls)%nat with (g + S (length ls))%nat by lia.
      destruct (_ <=? _)%nat; [|done].
      unfold zip_tags; simpl. by rewrite <- app_assoc.
    + apply nth_error_None in Hg.
      destruct (Nat.leb_spec (g + S (length ls)) (length table)); [lia | done].
Qed.

Lemma place_stages_spec (table : list Z) (stages : list (list L)) :
  forall s acc g, (g <= length table)%nat ->
  place_stages table stages s (acc, g) =
    let pos := stage_positions stages s in
    if (g + length pos <=? length table)%nat
    then Ok (acc ++ zip_tags pos (firstn (length pos) (skipn g table)), g + length pos)%nat
    else Err IndexError.
Proof.
  induction stages as [|st rest IH]; intros s acc g Hg0; cbn zeta; simpl.
  - destruct (Nat.leb_spec (g + 0) (length table)) as [H|H]; [|lia].
    rewrite app_nil_r, Nat.add_0_r. reflexivity.
  - rewrite place_layers_spec by done. rewrite length_app, length_layer_positions.
    destruct (Nat.leb_spec (g + length st) (length table)) as [H1|H1];
      unfold mbind, result_bind.
    + rewrite IH by done. cbn zeta.
      set (n2 := length (stage_positions rest (S s))).
      destruct (Nat.leb_spec (g + length st + n2) (length table)) as [H2|H2];
      destruct (Nat.leb_spec (g + (length st + n2)) (length table)) as [H3|H3]; try lia.
      * rewrite firstn_plus, skipn_skipn, zip_tags_app.
        -- rewrite app_assoc, (Nat.add_comm (length st) g), Nat.add_assoc. reflexivity.
        -- rewrite length_layer_positions, length_firstn_skipn; lia.
      * reflexivity.
    + destruct (Nat.leb_spec (g + (length st + length (stage_positions rest (S s))))
                  (length table)); [lia | done].
Qed.

Lemma encoder_placement_spec (table : list Z) (stages : list (list L)) :
  encoder_placement table stages =
    let pos := stage_positions stages 0 in
    if (length pos <=? length table)%nat
    then Ok (zip_tags pos (firstn (length pos) table), length pos)
    else Err IndexError.
Proof. unfold encoder_placement. rewrite place_stages_spec by lia. reflexivity. Qed.

Lemma zip_tags_fst (pos : list (nat * nat * L)) (ipus : list Z) :
  length pos = length ipus ->
  map (fun t => (tag_stage t, tag_layer_idx t, tag_layer t)) (zip_tags pos ipus) = pos /\
  map tag_ipu (zip_tags pos ipus) = ipus.
Proof.
  revert ipus; induction pos as [|[[s i] l] pos IH]; intros [|u ipus] Hl; simpl in *;
    try done.
  unfold zip_tags in *. simpl. destruct (IH ipus) as [H1 H2]; [lia|].
  rewrite H1, H2. done.
Qed.

End EncoderLemmas.

Lemma get_layer_ipu_from_range (a : Z) (lpi : list Z) (u : Z) :
  In u (get_layer_ipu_from a lpi) -> (a <= u < a + Z.of_nat (length lpi))%Z.
Proof.
  revert a; induction lpi as [|n lpi IH]; intros a Hin; simpl in *; [done|].
  apply in_app_or in Hin as [Hin|Hin].
  - apply repeat_spec in Hin. subst. lia.
  - apply IH in Hin. lia.
Qed.

(** ** The checkpoint translator *)

(** The [else] branch of the loop body is taken for [fb_tensor_name]. *)
Definition fallback_key (fb_to_hf_name : name_map) (load_classifier : bool)
    (fb_tensor_name : string) : bool :=
  negb (truthy (name_obj (fb_to_hf_name fb_tensor_name))
        && (negb (str_contains "head" fb_tensor_name) || load_classifier)).

Lemma assoc_get_in {V} (d : list (string * V)) (k : string) :
  In k (map fst d) -> exists v, assoc_get d k = Ok v.
Proof.
  induction d as [|[k' v] d IH]; simpl; [done|].
  intros [Heq|Hin]; destruct (String.eqb_spec k k'); eauto; congruence.
Qed.

Lemma assoc_get_err {V} (d : list (string * V)) (k : string) (e : exn) :
  assoc_get d k = Err e -> e = KeyError.
Proof.
  induction d as [|[k' v] d IH]; simpl; [congruence|].
  destruct (String.eqb k k'); [discriminate | exact IH].
Qed.

Lemma state_dict_get_cases {V} (d : gmap string V) (k : option string) :
  (exists v, state_dict_get d k = Ok v) \/ state_dict_get d k = Err KeyError.
Proof.
  unfold state_dict_get. destruct k as [s|]; [destruct (d !! s)|]; eauto.
Qed.

Section LoadLemmas.
Context {T : Type}.
Variable fb_to_hf_name : name_map.
Variable load_classifier : bool.
Variable fb_state_dict : list (string * T).
Variable current_state_dict : gmap string T.

Lemma load_step_cases (nsd : gmap (option string) T) (k : string) :
  In k (map fst fb_state_dict) ->
  (exists nsd', load_step fb_to_hf_name load_classifier fb_state_dict
                  current_state_dict nsd k = Ok nsd') \/
  (load_step fb_to_hf_name load_classifier fb_state_dict current_state_dict nsd k
     = Err KeyError /\
   fallback_key fb_to_hf_name load_classifier k = true /\
   state_dict_get current_state_dict (fb_to_hf_name k) = Err KeyError).
Proof.
  intros Hin. unfold load_step, fallback_key.
  destruct (truthy _ && _) eqn:Hg; simpl.
  - destruct (assoc_get_in _ _ Hin) as [v Hv]. rewrite Hv. left. eauto.
  - destruct (state_dict_get_cases current_state_dict (fb_to_hf_name k)) as [[v Hv]|Hv];
      rewrite Hv; [left; eauto | right; auto].
Qed.

Lemma load_step_err (nsd : gmap (option string) T) (k : string) :
  In k (map fst fb_state_dict) ->
  load_step fb_to_hf_name load_classifier fb_state_dict current_state_dict nsd k
    = Err KeyError <->
  fallback_key fb_to_hf_name load_classifier k = true /\
  state_dict_get current_state_dict (fb_to_hf_name k) = Err KeyError.
Proof.
  intros Hin. split.
  - intros Herr. destruct (load_step_cases nsd k Hin) as [[nsd' Hok]|(_ & H1 & H2)];
      [congruence | auto].
  - intros [Hf Hget]. unfold load_step. unfold fallback_key in Hf.
    apply negb_true_iff in Hf. rewrite Hf, Hget. reflexivity.
Qed.

Lemma load_loop_err (keys : list string) :
  (forall k, In k keys -> In k (map fst fb_state_dict)) ->
  forall nsd,
  load_loop fb_to_hf_name load_classifier fb_state_dict current_state_dict keys nsd
    = Err KeyError <->
  exists k, In k keys /\ fallback_key fb_to_hf_name load_classifier k = true /\
            state_dict_get current_state_dict (fb_to_hf_name k) = Err KeyError.
Proof.
  induction keys as [|k ks IH]; intros Hkeys nsd; simpl.
  - split; [discriminate | intros (? & [] & _)].
  - assert (Hk : In k (map fst fb_state_dict)) by (apply Hkeys; left; done).
    unfold mbind, result_bind.
    destruct (load_step_cases nsd k Hk) as [[nsd' Hok]|(Herr & H1 & H2)].
    + rewrite Hok, IH by (intros; apply Hkeys; right; done).
      split.
      * intros (k' & Hin & Hf & Hg). exists k'. auto.
      * intros (k' & [Heq|Hin] & Hf & Hg).
        -- subst k'. rewrite (proj2 (load_step_err nsd k Hk) (conj Hf Hg)) in Hok.
           discriminate.
        -- exists k'. auto.
    + rewrite Herr. split; [intros _; exists k; auto | done].
Qed.

End LoadLemmas.

Lemma load_weights_err {T} (f : name_map) (lc : bool) (ckpt : list (string * list (string * T)))
    (cur : gmap string T) :
  load_weights_from_fb_model f lc ckpt cur = Err KeyError <->
  assoc_get ckpt "model" = Err KeyError \/
  exists fb_sd k, assoc_get ckpt "model" = Ok fb_sd /\ In k (map fst fb_sd) /\
    fallback_key f lc k = true /\ state_dict_get cur (f k) = Err KeyError.
Proof.
  unfold load_weights_from_fb_model, mbind, result_bind.
  destruct (assoc_get ckpt "model") as [fb_sd|e] eqn:Hm.
  - rewrite load_loop_err by done. split.
    + intros (k & Hin & Hf & Hg). right. exists fb_sd, k. auto.
    + intros [Hc|(fb' & k & Heq & Hin & Hf & Hg)]; [discriminate|].
      injection Heq as <-. exists k. auto.
  - apply assoc_get_err in Hm as ->.
    split; [left; done | done].
Qed.

(** A checkpoint key the name map does not cover makes the translator
    raise [KeyError]. *)
Lemma load_weights_unmapped_fails {T} (f : name_map) (lc : bool)
    (ckpt : list (string * list (string * T))) (fb_sd : list (string * T))
    (cur : gmap string T) (k : string) :
  assoc_get ckpt "model" = Ok fb_sd -> In k (map fst fb_sd) -> f k = None ->
  load_weights_from_fb_model f lc ckpt cur = Err KeyError.
Proof.
  intros Hm Hin Hf. apply load_weights_err. right. exists fb_sd, k.
  unfold fallback_key. rewrite Hf. auto.
Qed.

(** ** The forward pass *)

Lemma forward_cached (m : model) (lbls : option labels) (rd : option bool) (p : string) :
  problem_type (m_config m) = Some p ->
  forward m lbls rd =
    (m, {| out_loss := match lbls with
                       | Some l => loss_of_problem_type m p (smoothing_value (m_config m)) l
                       | None => None
                       end;
           out_logits := Logits;
           out_return_dict := match rd with Some b => b | None => use_return_dict (m_config m) end |}).
Proof. intros Hp. unfold forward. destruct lbls; rewrite ?Hp; reflexivity. Qed.

Lemma forward_fresh (m : model) (l : labels) (rd : option bool) :
  problem_type (m_config m) = None ->
  let p := infer_problem_type (num_labels (m_config m)) (labels_dtype l) in
  let m' := set_config m (set_problem_type (m_config m) (Some p)) in
  forward m (Some l) rd =
    (m', {| out_loss := loss_of_problem_type m' p (smoothing_value (m_config m)) l;
            out_logits := Logits;
            out_return_dict := match rd with Some b => b | None => use_return_dict (m_config m) end |}).
Proof. intros Hp. unfold forward. rewrite Hp. reflexivity. Qed.

(** After a labelled call the problem type is set, and the loss is the
    branch of that problem type; [num_labels] is unchanged. *)
Lemma forward_labelled (m : model) (l : labels) (rd : option bool) :
  exists p,
    problem_type (m_config (fst (forward m (Some l) rd))) = Some p /\
    num_labels (m_config (fst (forward m (Some l) rd))) = num_labels (m_config m) /\
    out_loss (snd (forward m (Some l) rd)) =
      loss_of_problem_type (fst (forward m (Some l) rd)) p (smoothing_value (m_config m)) l.
Proof.
  destruct (problem_type (m_config m)) as [p|] eqn:Hp.
  - rewrite (forward_cached m (Some l) rd p Hp). exists p. simpl. auto.
  - rewrite (forward_fresh m l rd Hp). eexists. simpl. auto.
Qed.

Lemma loss_of_problem_type_single (m : model) (s : Q) (l : labels) :
  loss_of_problem_type m "single_label_classification" s l =
    Some (CrossEntropyLoss 0 (View Logits [-1; num_labels (m_config m)]%Z)
                             (View (Labels l) [-1]%Z)).
Proof. reflexivity. Qed.

Lemma in_firstn {V} (n : nat) (l : list V) (x : V) : In x (firstn n l) -> In x l.
Proof. intros H. rewrite <- (firstn_skipn n l). apply in_or_app. by left. Qed.

(* ================================================================== *)
(** * Claims *)

(** C1 (code bug). Checkpoint translation on a key the name map does not
    cover: [fb_to_hf_name] finds no name for ["norm.weight"], the loop takes
    the fallback branch and evaluates [current_state_dict[None]], which
    raises [KeyError]; nothing falls back to the model's current value. *)
Theorem load_weights_uncovered_key_raises :
  load_weights_from_fb_model example_name_map false example_checkpoint example_state_dict
    = Err KeyError.
Proof. vm_compute. reflexivity. Qed.

(** C2 (corrected). With labels present and no problem type set, forward
    infers it from [num_labels] and the labels' dtype (regression for one
    label, single-label classification for more labels of dtype long or
    int, multi-label otherwise), computes the loss of that problem type,
    and writes it into [config.problem_type] (the one state change); a
    second call with the same inputs returns the same output and changes
    nothing. *)
Theorem forward_problem_type_inference (m : model) (l : labels) (rd : option bool) :
  problem_type (m_config m) = None ->
  let nl := num_labels (m_config m) in
  let p := infer_problem_type nl (labels_dtype l) in
  let m' := set_config m (set_problem_type (m_config m) (Some p)) in
  (nl = 1%Z -> p = "regression") /\
  ((1 < nl)%Z -> labels_dtype l = Long \/ labels_dtype l = Int ->
     p = "single_label_classification") /\
  (nl <> 1%Z -> ~ ((1 < nl)%Z /\ (labels_dtype l = Long \/ labels_dtype l = Int)) ->
     p = "multi_label_classification") /\
  fst (forward m (Some l) rd) = m' /\
  out_loss (snd (forward m (Some l) rd)) = loss_of_problem_type m' p (smoothing_value (m_config m)) l /\
  forward m' (Some l) rd = forward m (Some l) rd.
Proof.
  intros Hp nl p m'.
  assert (Hfw := forward_fresh m l rd Hp). cbn zeta in Hfw. fold nl p m' in Hfw.
  repeat split.
  - intros H1. unfold p, infer_problem_type. rewrite H1. reflexivity.
  - intros H1 Hd. unfold p, infer_problem_type.
    destruct (Z.eqb_spec nl 1); [lia|].
    destruct (Z.ltb_spec 1 nl); [|lia].
    destruct Hd as [-> | ->]; reflexivity.
  - intros H1 H2. unfold p, infer_problem_type.
    destruct (Z.eqb_spec nl 1); [done|].
    destruct (Z.ltb_spec 1 nl); simpl; [|done].
    destruct (labels_dtype l) eqn:Hd; simpl; try done; exfalso; apply H2; auto.
  - by rewrite Hfw.
  - by rewrite Hfw.
  - rewrite (forward_cached m' (Some l) rd p) by reflexivity. rewrite Hfw. reflexivity.
Qed.

Lemma forward_problem_type_inference_witness :
  problem_type (m_config example_model) = None /\
  forward (set_config example_model (set_problem_type (m_config example_model)
             (Some "single_label_classification"))) (Some example_labels) None
  = forward example_model (Some example_labels) None.
Proof.
  split; [reflexivity|].
  exact (proj2 (proj2 (proj2 (proj2 (proj2
    (forward_problem_type_inference example_model example_labels None eq_refl)))))).
Defined.

(** C2, as stated, fails: forward with labels and no problem type does not
    leave the model's state unchanged, it writes [config.problem_type]. *)
Lemma forward_not_pure :
  ~ (forall (m : model) (l : labels) (rd : option bool),
       problem_type (m_config m) = None -> fst (forward m (Some l) rd) = m).
Proof.
  intros H. specialize (H example_model example_labels None eq_refl).
  apply (f_equal (fun m => problem_type (m_config m))) in H.
  vm_compute in H. discriminate.
Qed.

(** C3 (corrected). Unit indices of [parallelize]: the embeddings are on
    unit 0, the head (layernorm and classifier) on [ipus_per_replica - 1],
    and every encoder layer on a unit between 0 and
    [len(layers_per_ipu) - 1]; that is at most [ipus_per_replica - 1]
    whenever [layers_per_ipu] has at most [ipus_per_replica] entries, which
    the module does not check. *)
Theorem parallelize_unit_bounds {L} (ic : ipu_config) (stages : list (list L))
    (p : placement L) :
  parallelize ic stages = Ok p ->
  embeddings_ipu p = 0%Z /\
  layernorm_ipu p = Some (ipus_per_replica ic - 1)%Z /\
  classifier_ipu p = Some (ipus_per_replica ic - 1)%Z /\
  forall t, In t (encoder_tags p) ->
    (0 <= tag_ipu t <= Z.of_nat (length (layers_per_ipu ic)) - 1)%Z /\
    (Z.of_nat (length (layers_per_ipu ic)) <= ipus_per_replica ic ->
       tag_ipu t <= ipus_per_replica ic - 1)%Z.
Proof.
  unfold parallelize, mixin_parallelize.
  rewrite encoder_placement_spec. cbn zeta.
  set (pos := stage_positions stages 0).
  set (table := get_layer_ipu (layers_per_ipu ic)).
  destruct (Nat.leb_spec (length pos) (length table)) as [Hle|Hle];
    unfold mbind, result_bind; simpl; [|discriminate].
  intros Hp. injection Hp as <-. simpl.
  split; [done|]. split; [done|]. split; [done|].
  intros t Hin.
  assert (Hlen : length pos = length (firstn (length pos) table))
    by (rewrite length_firstn; lia).
  destruct (zip_tags_fst pos (firstn (length pos) table) Hlen) as [_ Hipu].
  assert (Hu : In (tag_ipu t) table).
  { apply (in_firstn (length pos)). rewrite <- Hipu. by apply in_map. }
  apply get_layer_ipu_from_range in Hu. lia.
Qed.

Lemma parallelize_unit_bounds_witness :
  exists p, parallelize example_ipu_config [[10%nat]; [11%nat]] = Ok p /\
    embeddings_ipu p = 0%Z /\
    layernorm_ipu p = Some (ipus_per_replica example_ipu_config - 1)%Z /\
    classifier_ipu p = Some (ipus_per_replica example_ipu_config - 1)%Z /\
    forall t, In t (encoder_tags p) ->
      (0 <= tag_ipu t <= Z.of_nat (length (layers_per_ipu example_ipu_config)) - 1)%Z /\
      (Z.of_nat (length (layers_per_ipu example_ipu_config)) <= ipus_per_replica example_ipu_config ->
         tag_ipu t <= ipus_per_replica example_ipu_config - 1)%Z.
Proof.
  eexists. split; [vm_compute; reflexivity|].
  apply (parallelize_unit_bounds example_ipu_config [[10%nat]; [11%nat]]). vm_compute. reflexivity.
Defined.

(** C3, as stated, fails: with [layers_per_ipu = [1; 1]] and
    [ipus_per_replica = 1], the second encoder layer is put on unit 1, past
    the last unit 0. *)
Lemma parallelize_unit_exceeds_replica :
  ~ (forall (ic : ipu_config) (stages : list (list nat)) (p : placement nat),
       parallelize ic stages = Ok p ->
       forall t, In t (encoder_tags p) -> (tag_ipu t <= ipus_per_replica ic - 1)%Z).
Proof.
  intros H.
  set (t0 := {| tag_stage := 0; tag_layer_idx := 0; tag_layer := 10%nat; tag_ipu := 0%Z |}).
  set (t1 := {| tag_stage := 0; tag_layer_idx := 1; tag_layer := 11%nat; tag_ipu := 1%Z |}).
  specialize (H example_ipu_config [[10%nat; 11%nat]]
                {| embeddings_ipu := 0%Z; encoder_tags := [t0; t1];
                   layernorm_ipu := Some 0%Z; classifier_ipu := Some 0%Z |}
                ltac:(vm_compute; reflexivity) t1 (or_intror (or_introl eq_refl))).
  vm_compute in H. apply H. reflexivity.
Qed.

(** C4 (confirmed). The encoder loop walks the layers stage by stage, and
    within a stage in order; it tags the k-th layer overall with entry k of
    the per-layer unit table [encoder_layer_ipu], and [global_layer_idx]
    ends at the number of layers, one step per layer. *)
Theorem encoder_placement_linear {L} (encoder_layer_ipu : list Z)
    (stages : list (list L)) (tags : list (tag L)) (g : nat) :
  encoder_placement encoder_layer_ipu stages = Ok (tags, g) ->
  let pos := stage_positions stages 0 in
  g = length pos /\
  map (fun t => (tag_stage t, tag_layer_idx t, tag_layer t)) tags = pos /\
  map tag_ipu tags = firstn (length pos) encoder_layer_ipu.
Proof.
  rewrite encoder_placement_spec. cbn zeta.
  set (pos := stage_positions stages 0).
  destruct (Nat.leb_spec (length pos) (length encoder_layer_ipu)) as [Hle|Hle];
    [|discriminate].
  intros H. injection H as <- <-.
  assert (Hlen : length pos = length (firstn (length pos) encoder_layer_ipu))
    by (rewrite length_firstn; lia).
  destruct (zip_tags_fst pos _ Hlen) as [H1 H2]. auto.
Qed.

Lemma encoder_placement_linear_witness :
  map tag_ipu (zip_tags (stage_positions [[10%nat; 11%nat]; [12%nat]] 0) [0; 1; 1]%Z)
    = [0; 1; 1]%Z.
Proof.
  exact (proj2 (proj2 (encoder_placement_linear (get_layer_ipu [1; 2]%Z)
           [[10%nat; 11%nat]; [12%nat]] _ 3 ltac:(vm_compute; reflexivity)))).
Defined.

(** C5 (confirmed). The loss of a labelled forward call branches on the
    problem type: MSE for regression (on squeezed logits and labels when
    [num_labels = 1]), cross-entropy on logits viewed as [(-1, num_labels)]
    and flattened labels for single-label, soft-target cross-entropy
    (passed through [poptorch.identity_loss]) for multi-label, and no loss
    for any other problem type or without labels. *)
Theorem forward_loss_branches (m : model) (l : labels) (rd : option bool) (p : string) :
  problem_type (m_config (fst (forward m (Some l) rd))) = Some p ->
  let nl := num_labels (m_config m) in
  let loss := out_loss (snd (forward m (Some l) rd)) in
  (p = "regression" ->
     loss = Some (if Z.eqb nl 1 then MSELoss (Squeeze Logits) (Squeeze (Labels l))
                  else MSELoss Logits (Labels l))) /\
  (p = "single_label_classification" ->
     exists s, loss = Some (CrossEntropyLoss s (View Logits [-1; nl]%Z) (View (Labels l) [-1]%Z))) /\
  (p = "multi_label_classification" ->
     loss = Some (IdentityLoss (SoftTargetCrossEntropy Logits (Labels l)) "none")) /\
  (p <> "regression" -> p <> "single_label_classification" ->
     p <> "multi_label_classification" -> loss = None) /\
  out_loss (snd (forward m None rd)) = None.
Proof.
  intros Hp nl loss.
  destruct (forward_labelled m l rd) as (p' & Hp' & Hnl & Hloss).
  rewrite Hp in Hp'. injection Hp' as <-.
  unfold loss. rewrite Hloss. unfold nl. rewrite <- Hnl.
  set (m1 := fst (forward m (Some l) rd)).
  unfold loss_of_problem_type.
  repeat split.
  - intros ->. simpl. destruct (_ =? 1)%Z; reflexivity.
  - intros ->. eexists. reflexivity.
  - intros ->. reflexivity.
  - intros H1 H2 H3.
    destruct (String.eqb_spec p "regression"); [done|].
    destruct (String.eqb_spec p "single_label_classification"); [done|].
    destruct (String.eqb_spec p "multi_label_classification"); done.
Qed.

Lemma forward_loss_branches_witness :
  exists s, out_loss (snd (forward example_model (Some example_labels) None)) =
    Some (CrossEntropyLoss s (View Logits [-1; 3]%Z) (View (Labels example_labels) [-1]%Z)).
Proof.
  exact (proj1 (proj2 (forward_loss_branches example_model example_labels None
           "single_label_classification" eq_refl)) eq_refl).
Defined.

(** C6 (confirmed). The module handles no failure: [parallelize] raises
    [IndexError] exactly when the model has more encoder layers than the
    unit table has entries, and the checkpoint translator raises [KeyError]
    exactly when the checkpoint has no ["model"] entry or a key taking the
    fallback branch names no parameter of the current state dict. *)
Theorem no_failure_handling :
  (forall L (ic : ipu_config) (stages : list (list L)),
     parallelize ic stages = Err IndexError <->
     (length (get_layer_ipu (layers_per_ipu ic)) < length (stage_positions stages 0))%nat) /\
  (forall T (fb_to_hf_name : name_map) (load_classifier : bool)
          (ckpt : list (string * list (string * T))) (current_state_dict : gmap string T),
     load_weights_from_fb_model fb_to_hf_name load_classifier ckpt current_state_dict
       = Err KeyError <->
     assoc_get ckpt "model" = Err KeyError \/
     exists fb_state_dict k, assoc_get ckpt "model" = Ok fb_state_dict /\
       In k (map fst fb_state_dict) /\
       fallback_key fb_to_hf_name load_classifier k = true /\
       state_dict_get current_state_dict (fb_to_hf_name k) = Err KeyError).
Proof.
  split.
  - intros L ic stages. unfold parallelize, mixin_parallelize.
    rewrite encoder_placement_spec. cbn zeta.
    destruct (Nat.leb_spec (length (stage_positions stages 0))
                (length (get_layer_ipu (layers_per_ipu ic)))) as [H|H];
      unfold mbind, result_bind; simpl; split; intros; try done; lia.
  - intros. apply load_weights_err.
Qed.

(** C7 (corrected). The module reads, besides the eight fields of the spec,
    [config.hidden_act] (the activation of every block built by
    [replace_block_init]) and [config.use_return_dict] (in forward when
    [return_dict] is [None]), and no other attribute of either
    configuration: configurations that agree on these ten fields, whatever
    their other attributes, give the same initialization steps of this
    module, the same blocks, the same placement, the same forward outputs,
    and the same write of forward to [config.problem_type], which leaves
    the rest of each configuration as it was. *)
Theorem config_fields_read (c1 c2 : config) (ic1 ic2 : ipu_config) :
  agree8 (c1, ic1) (c2, ic2) ->
  hidden_act c1 = hidden_act c2 ->
  use_return_dict c1 = use_return_dict c2 ->
  extend_hf_convnext_init c1 = extend_hf_convnext_init c2 /\
  (forall dim drop_path_rate,
     replace_block_init c1 dim drop_path_rate = replace_block_init c2 dim drop_path_rate) /\
  (forall L (stages : list (list L)), parallelize ic1 stages = parallelize ic2 stages) /\
  (forall training lbls rd,
     let m1 := {| m_config := c1; m_ipu_config := ic1; m_training := training |} in
     let m2 := {| m_config := c2; m_ipu_config := ic2; m_training := training |} in
     snd (forward m1 lbls rd) = snd (forward m2 lbls rd) /\
     exists pt,
       fst (forward m1 lbls rd) = set_config m1 (set_problem_type c1 pt) /\
       fst (forward m2 lbls rd) = set_config m2 (set_problem_type c2 pt)).
Proof.
  destruct c1 as [n1 h1 w1 p1 s1 l1 a1 r1 o1], c2 as [n2 h2 w2 p2 s2 l2 a2 r2 o2],
    ic1 as [lpi1 ipr1 io1], ic2 as [lpi2 ipr2 io2].
  unfold agree8. cbn.
  intros (H1 & H2 & H3 & H4 & H5 & H6 & H7 & H8) H9 H10. subst.
  split; [reflexivity|]. split; [reflexivity|].
  split; [reflexivity|].
  intros training lbls rd. cbv zeta.
  destruct lbls as [l|]; [destruct p2 as [p|]|]; cbn.
  - split; [reflexivity|]. exists (Some p). split; reflexivity.
  - split; [reflexivity|]. eexists. split; reflexivity.
  - split; [reflexivity|]. exists p2. split; reflexivity.
Qed.

Lemma config_fields_read_witness :
  replace_block_init example_config 96 0 = replace_block_init example_config_other 96 0.
Proof.
  exact (proj1 (proj2 (config_fields_read example_config example_config_other
           example_ipu_config example_ipu_config
           ltac:(repeat split) eq_refl eq_refl)) 96%nat 0%Q).
Defined.

(** C7, as stated, fails: two configurations agreeing on the eight fields
    but with activations ["gelu"] and ["relu"] build different blocks. *)
Lemma hidden_act_is_read :
  ~ (forall (c1 c2 : config) (ic : ipu_config) (dim : nat) (drop_path_rate : Q),
       agree8 (c1, ic) (c2, ic) ->
       replace_block_init c1 dim drop_path_rate = replace_block_init c2 dim drop_path_rate).
Proof.
  intros H.
  specialize (H example_config
    {| num_labels := 3; head_init_scale := Some (1#1); pretrained_weights_path := None;
       problem_type := None; smoothing := Some (1#10); layer_scale_init_value := (1#1000000);
       hidden_act := "relu"; use_return_dict := false; other_fields := [] |}
    example_ipu_config 96%nat 0%Q ltac:(repeat split)).
  apply (f_equal act) in H. vm_compute in H. discriminate.
Qed.

(** C8 (confirmed). [SerializedLinear.forward] computes
    [input @ weight.t() + bias], as [nn.Linear] does, whatever the
    serialization mode; the mode is [ReducingDim] exactly when
    [in_features > 2000] or [out_features > 2000], and [Disabled]
    otherwise. *)
Theorem serialized_linear_refines_linear (in_f out_f : nat)
    (weight : list (list Z)) (bias : list Z) (input : list (list Z)) :
  SerializedLinear_forward (SerializedLinear_init in_f out_f) weight bias input =
    Linear_forward weight bias input /\
  (ser_mode (SerializedLinear_init in_f out_f) = ReducingDim <->
     (2000 < in_f)%nat \/ (2000 < out_f)%nat) /\
  (ser_mode (SerializedLinear_init in_f out_f) = Disabled <->
     (in_f <= 2000)%nat /\ (out_f <= 2000)%nat).
Proof.
  split.
  - unfold SerializedLinear_forward, Linear_forward.
    rewrite serializedMatMul_matmul by lia. reflexivity.
  - unfold SerializedLinear_init. simpl.
    destruct (Nat.ltb_spec 2000 in_f), (Nat.ltb_spec 2000 out_f); simpl;
      split; split; intros; try done; lia.
Qed.

(** C9 (confirmed). In the single-label branch the loss is always the
    unsmoothed [CrossEntropyLoss()]: [self.eval] is a bound method, always
    truthy, so the configured smoothing and the training flag play no
    part. *)
Theorem single_label_ignores_smoothing (m : model) (l : labels) (rd : option bool) :
  problem_type (m_config (fst (forward m (Some l) rd))) = Some "single_label_classification" ->
  out_loss (snd (forward m (Some l) rd)) =
    Some (CrossEntropyLoss 0 (View Logits [-1; num_labels (m_config m)]%Z)
                             (View (Labels l) [-1]%Z)).
Proof.
  intros Hp.
  destruct (forward_labelled m l rd) as (p & Hp' & Hnl & Hloss).
  rewrite Hp in Hp'. injection Hp' as <-.
  rewrite Hloss, loss_of_problem_type_single, Hnl. reflexivity.
Qed.

Lemma single_label_ignores_smoothing_witness :
  smoothing (m_config example_model) = Some (1#10) /\
  m_training example_model = true /\
  out_loss (snd (forward example_model (Some example_labels) None)) =
    Some (CrossEntropyLoss 0 (View Logits [-1; 3]%Z) (View (Labels example_labels) [-1]%Z)).
Proof.
  split; [reflexivity|]. split; [reflexivity|].
  exact (single_label_ignores_smoothing example_model example_labels None eq_refl).
Defined.

(** C10 (confirmed). The first labelled call on a model without a problem
    type caches the inferred type in [config.problem_type]; every later
    call leaves the model as it is and, when it has labels, takes the
    branch of the cached type whatever the new labels' dtype and shape. *)
Theorem problem_type_cached (m : model) (l : labels) (rd : option bool) :
  problem_type (m_config m) = None ->
  let p := infer_problem_type (num_labels (m_config m)) (labels_dtype l) in
  let m1 := fst (forward m (Some l) rd) in
  problem_type (m_config m1) = Some p /\
  forall calls : list (option labels * option bool),
    Forall2 (fun call r =>
               fst r = m1 /\
               out_loss (snd r) =
                 match fst call with
                 | Some l' => loss_of_problem_type m1 p (smoothing_value (m_config m1)) l'
                 | None => None
                 end)
            calls (run_forwards m1 calls).
Proof.
  intros Hp p m1.
  assert (Hm1 : problem_type (m_config m1) = Some p)
    by (unfold m1; rewrite (forward_fresh m l rd Hp); reflexivity).
  split; [exact Hm1|].
  induction calls as [|[lbls rd'] calls IH]; simpl; [constructor|].
  rewrite (forward_cached m1 lbls rd' p Hm1).
  constructor; [|exact IH]. simpl. split; [reflexivity|]. destruct lbls; reflexivity.
Qed.

Lemma problem_type_cached_witness :
  problem_type (m_config (fst (forward example_model (Some example_labels) None)))
    = Some "single_label_classification".
Proof.
  exact (proj1 (problem_type_cached example_model example_labels None eq_refl)).
Defined.

(* ================================================================== *)
(** * Further properties of the module *)

(** ** The checkpoint translator on success *)

Lemma load_step_ok {T} (f : name_map) (lc : bool) (fb_sd : list (string * T))
    (cur : gmap string T) (nsd nsd' : gmap (option string) T) (k : string) :
  load_step f lc fb_sd cur nsd k = Ok nsd' ->
  exists v, nsd' = <[f k := v]> nsd /\
    (fallback_key f lc k = false -> assoc_get fb_sd k = Ok v) /\
    (fallback_key f lc k = true -> state_dict_get cur (f k) = Ok v).
Proof.
  unfold load_step, fallback_key, mbind, result_bind.
  destruct (truthy _ && _) eqn:Hg; simpl.
  - destruct (assoc_get fb_sd k) as [v|e]; [|discriminate].
    intros H. injection H as <-. exists v. split; [done|]. split; [done | discriminate].
  - destruct (state_dict_get cur (f k)) as [v|e]; [|discriminate].
    intros H. injection H as <-. exists v. split; [done|]. split; [discriminate | done].
Qed.

Lemma load_loop_dom {T} (f : name_map) (lc : bool) (fb_sd : list (string * T))
    (cur : gmap string T) (keys : list string) :
  forall nsd nsd', load_loop f lc fb_sd cur keys nsd = Ok nsd' ->
  forall n, is_Some (nsd' !! n) <-> is_Some (nsd !! n) \/ exists k, In k keys /\ f k = n.
Proof.
  induction keys as [|k ks IH]; intros nsd nsd' Hl n; simpl in Hl.
  - injection Hl as <-. split; [auto | intros [H|(? & [] & _)]; done].
  - unfold mbind, result_bind in Hl.
    destruct (load_step f lc fb_sd cur nsd k) as [nsd1|e] eqn:Hs; [|discriminate].
    destruct (load_step_ok f lc fb_sd cur nsd nsd1 k Hs) as (v & -> & _).
    rewrite (IH _ _ Hl n).
    destruct (decide (f k = n)) as [<-|Hne].
    + rewrite lookup_insert_eq. split; [intros _; right; exists k; simpl; auto | auto].
    + rewrite lookup_insert_ne by done. split.
      * intros [H|(k' & Hin & Hk')]; [auto | right; exists k'; simpl; auto].
      * intros [H|(k' & [<-|Hin] & Hk')]; [auto | done | right; eauto].
Qed.

Lemma load_loop_frame {T} (f : name_map) (lc : bool) (fb_sd : list (string * T))
    (cur : gmap string T) (keys : list string) (n : option string) :
  (forall k, In k keys -> f k <> n) ->
  forall nsd nsd', load_loop f lc fb_sd cur keys nsd = Ok nsd' -> nsd' !! n = nsd !! n.
Proof.
  induction keys as [|k ks IH]; intros Hn nsd nsd' Hl; simpl in Hl.
  - by injection Hl as <-.
  - unfold mbind, result_bind in Hl.
    destruct (load_step f lc fb_sd cur nsd k) as [nsd1|e] eqn:Hs; [|discriminate].
    destruct (load_step_ok f lc fb_sd cur nsd nsd1 k Hs) as (v & -> & _).
    rewrite (IH (fun k' H => Hn k' (or_intror H)) _ _ Hl).
    apply lookup_insert_ne. apply (Hn k). by left.
Qed.

Lemma load_loop_values {T} (f : name_map) (lc : bool) (fb_sd : list (string * T))
    (cur : gmap string T) (keys : list string) :
  List.NoDup keys ->
  (forall k1 k2, In k1 keys -> In k2 keys -> f k1 = f k2 -> k1 = k2) ->
  forall nsd nsd', load_loop f lc fb_sd cur keys nsd = Ok nsd' ->
  forall k, In k keys ->
    (fallback_key f lc k = false -> exists v, assoc_get fb_sd k = Ok v /\ nsd' !! f k = Some v) /\
    (fallback_key f lc k = true -> exists v, state_dict_get cur (f k) = Ok v /\ nsd' !! f k = Some v).
Proof.
  induction keys as [|k0 ks IH]; intros Hnd Hinj nsd nsd' Hl k Hin; [done|].
  simpl in Hl. unfold mbind, result_bind in Hl.
  destruct (load_step f lc fb_sd cur nsd k0) as [nsd1|e] eqn:Hs; [|discriminate].
  apply NoDup_cons_iff in Hnd as [Hk0 Hnd].
  destruct Hin as [<-|Hin].
  - destruct (load_step_ok f lc fb_sd cur nsd nsd1 k0 Hs) as (v & -> & Hv1 & Hv2).
    assert (Hfr : nsd' !! f k0 = Some v).
    { rewrite (load_loop_frame f lc fb_sd cur ks (f k0)) with (nsd := <[f k0 := v]> nsd)
        (nsd' := nsd').
      - apply lookup_insert_eq.
      - intros k2 Hk2 Heq. apply Hk0.
        rewrite (Hinj k2 k0) in Hk2; [done | right; done | left; done | done].
      - done. }
    split; intros Hf; exists v; auto.
  - apply (IH Hnd) with (nsd := nsd1); try done.
    intros k1 k2 H1 H2. apply Hinj; right; done.
Qed.

Lemma assoc_get_nodup {V} (d : list (string * V)) (k : string) (v : V) :
  List.NoDup (map fst d) -> In (k, v) d -> assoc_get d k = Ok v.
Proof.
  induction d as [|[k' v'] d IH]; simpl; [done|].
  intros Hnd [Heq|Hin]; apply NoDup_cons_iff in Hnd as [Hk' Hnd].
  - injection Heq as -> ->. by rewrite String.eqb_refl.
  - destruct (String.eqb_spec k k') as [->|]; [|by apply IH].
    exfalso. apply Hk'. apply (in_map fst) in Hin. done.
Qed.

(** X1. When the translation succeeds, the dict handed to
    [model.load_state_dict] has exactly the names [fb_to_hf_name] gives the
    checkpoint's keys. *)
Theorem load_weights_names {T} (f : name_map) (lc : bool)
    (ckpt : list (string * list (string * T))) (cur : gmap string T)
    (new_state_dict : gmap (option string) T) :
  load_weights_from_fb_model f lc ckpt cur = Ok new_state_dict ->
  exists fb_state_dict, assoc_get ckpt "model" = Ok fb_state_dict /\
    forall n, is_Some (new_state_dict !! n) <->
              exists k, In k (map fst fb_state_dict) /\ f k = n.
Proof.
  unfold load_weights_from_fb_model, mbind, result_bind.
  destruct (assoc_get ckpt "model") as [fb_sd|e]; [|discriminate].
  intros Hl. exists fb_sd. split; [done|]. intros n.
  rewrite (load_loop_dom f lc fb_sd cur _ _ _ Hl n). rewrite lookup_empty.
  split; [intros [H|H]; [by inversion H | done] | auto].
Qed.

(** X2. When the translation succeeds on a checkpoint without repeated
    keys and the name map sends distinct keys to distinct names, each
    mapped name holds the checkpoint's tensor when the key is loaded
    (mapped and not a ["head"] key, or [load_classifier]), and the model's
    current tensor of that name otherwise. *)
Theorem load_weights_values {T} (f : name_map) (lc : bool)
    (ckpt : list (string * list (string * T))) (fb_state_dict : list (string * T))
    (cur : gmap string T) (new_state_dict : gmap (option string) T) :
  assoc_get ckpt "model" = Ok fb_state_dict ->
  List.NoDup (map fst fb_state_dict) ->
  (forall k1 k2, In k1 (map fst fb_state_dict) -> In k2 (map fst fb_state_dict) ->
     f k1 = f k2 -> k1 = k2) ->
  load_weights_from_fb_model f lc ckpt cur = Ok new_state_dict ->
  forall k v, In (k, v) fb_state_dict ->
    (fallback_key f lc k = false -> new_state_dict !! f k = Some v) /\
    (fallback_key f lc k = true ->
       exists s, f k = Some s /\ new_state_dict !! f k = cur !! s /\ is_Some (cur !! s)).
Proof.
  intros Hm Hnd Hinj Hl k v Hin.
  unfold load_weights_from_fb_model, mbind, result_bind in Hl. rewrite Hm in Hl.
  assert (Hk : In k (map fst fb_state_dict)) by (apply (in_map fst) in Hin; done).
  destruct (load_loop_values f lc fb_state_dict cur _ Hnd Hinj _ _ Hl k Hk) as [H1 H2].
  split.
  - intros Hf. destruct (H1 Hf) as (v' & Hv' & Hlk).
    rewrite (assoc_get_nodup _ _ _ Hnd Hin) in Hv'. injection Hv' as <-. done.
  - intros Hf. destruct (H2 Hf) as (v' & Hv' & Hlk).
    unfold state_dict_get in Hv'. destruct (f k) as [s|]; [|discriminate].
    exists s. destruct (cur !! s) eqn:Hs; [|discriminate].
    injection Hv' as <-. split; [done|]. split; [done|]. eexists; done.
Qed.

Lemma load_weights_names_witness :
  exists new_state_dict,
    load_weights_from_fb_model example_full_name_map false example_head_checkpoint
      example_head_state_dict = Ok new_state_dict /\
    is_Some (new_state_dict !! Some "classifier.weight").
Proof.
  destruct (load_weights_from_fb_model example_full_name_map false example_head_checkpoint
              example_head_state_dict) as [nsd|e] eqn:Hl;
    [|vm_compute in Hl; discriminate].
  exists nsd. split; [reflexivity|].
  destruct (load_weights_names example_full_name_map false _ _ nsd Hl) as (fb & Hfb & Hdom).
  apply Hdom. vm_compute in Hfb. injection Hfb as <-.
  exists "head.weight". split; [simpl; auto | reflexivity].
Defined.

Lemma load_weights_values_witness :
  exists new_state_dict,
    load_weights_from_fb_model example_full_name_map false example_head_checkpoint
      example_head_state_dict = Ok new_state_dict /\
    new_state_dict !! Some "classifier.weight" = Some 3%Z /\
    new_state_dict !! Some "convnext.layernorm.weight" = Some 8%Z.
Proof.
  destruct (load_weights_from_fb_model example_full_name_map false example_head_checkpoint
              example_head_state_dict) as [nsd|e] eqn:Hl;
    [|vm_compute in Hl; discriminate].
  exists nsd. split; [reflexivity|].
  set (fb := [("downsample_layers.0.0.weight", 7%Z); ("norm.weight", 8%Z);
              ("head.weight", 9%Z)]).
  assert (Hnd : List.NoDup (map fst fb)).
  { repeat constructor; simpl; intros H; repeat destruct H as [H|H]; done. }
  assert (Hinj : forall k1 k2, In k1 (map fst fb) -> In k2 (map fst fb) ->
            example_full_name_map k1 = example_full_name_map k2 -> k1 = k2).
  { intros k1 k2 H1 H2. simpl in H1, H2.
    destruct H1 as [<-|[<-|[<-|[]]]], H2 as [<-|[<-|[<-|[]]]]; intros Heq;
      vm_compute in Heq; done. }
  pose proof (load_weights_values example_full_name_map false example_head_checkpoint fb
                example_head_state_dict nsd eq_refl Hnd Hinj Hl) as Hv.
  split.
  - destruct (Hv "head.weight" 9%Z ltac:(simpl; auto)) as [_ H].
    destruct (H eq_refl) as (s & Hs & Hlk & _). vm_compute in Hs. injection Hs as <-.
    transitivity (example_head_state_dict !! "classifier.weight"); [exact Hlk | reflexivity].
  - exact (proj1 (Hv "norm.weight" 8%Z ltac:(simpl; auto)) eq_refl).
Defined.

(** ** Blocks and the forward pass *)

(** X3. Both pointwise layers of a block built by [replace_block_init]
    ([dim -> 4*dim] and [4*dim -> dim]) are serialized alike, and they use
    [ReducingDim] exactly when [dim > 500]. *)
Theorem block_serialization (c : config) (dim : nat) (drop_path_rate : Q) :
  let b := replace_block_init c dim drop_path_rate in
  (in_features (pwconv1 b), out_features (pwconv1 b)) = (dim, 4 * dim)%nat /\
  (in_features (pwconv2 b), out_features (pwconv2 b)) = (4 * dim, dim)%nat /\
  ser_mode (pwconv1 b) = ser_mode (pwconv2 b) /\
  (ser_mode (pwconv1 b) = ReducingDim <-> (500 < dim)%nat).
Proof.
  intros b. unfold b, replace_block_init, SerializedLinear_init.
  cbn [pwconv1 pwconv2 ser_mode in_features out_features].
  split; [done|]. split; [done|].
  destruct (Nat.ltb_spec 2000 dim), (Nat.ltb_spec 2000 (4 * dim)); cbn [orb];
    split; try done; split; intros; try done; lia.
Qed.


(** ** The unit table of [parallelize] *)

Lemma length_get_layer_ipu_from (a : Z) (lpi : list Z) :
  length (get_layer_ipu_from a lpi) = sum_list_with Z.to_nat lpi.
Proof.
  revert a; induction lpi as [|n lpi IH]; intros a; simpl; [done|].
  rewrite length_app, repeat_length, IH. reflexivity.
Qed.

Lemma length_stage_positions {L} (stages : list (list L)) (s : nat) :
  length (stage_positions stages s) = sum_list_with length stages.
Proof.
  revert s; induction stages as [|st rest IH]; intros s; simpl; [done|].
  rewrite length_app, length_layer_positions, IH. reflexivity.
Qed.

Lemma get_layer_ipu_from_sorted (a : Z) (lpi : list Z) :
  StronglySorted Z.le (get_layer_ipu_from a lpi) /\
  Forall (Z.le a) (get_layer_ipu_from a lpi).
Proof.
  revert a; induction lpi as [|n lpi IH]; intros a; simpl; [split; constructor|].
  destruct (IH (a + 1)%Z) as [Hs Hf].
  assert (Hf' : Forall (Z.le a) (get_layer_ipu_from (a + 1) lpi)).
  { eapply Forall_impl; [exact Hf|]. intros x Hx. simpl in Hx. lia. }
  induction (Z.to_nat n) as [|k IHk]; simpl; [split; [exact Hs | exact Hf']|].
  destruct IHk as [IHs IHf]. split.
  - constructor; [done|]. exact IHf.
  - constructor; [lia | exact IHf].
Qed.

Lemma count_get_layer_ipu_from (a : Z) (lpi : list Z) (i : nat) :
  count_occ Z.eq_dec (get_layer_ipu_from a lpi) (a + Z.of_nat i)%Z =
  Z.to_nat (nth i lpi 0%Z).
Proof.
  revert a i; induction lpi as [|n lpi IH]; intros a i; simpl; [by destruct i|].
  rewrite count_occ_app. destruct i as [|i].
  - rewrite count_occ_repeat_eq by lia.
    assert (H0 : count_occ Z.eq_dec (get_layer_ipu_from (a + 1) lpi) (a + Z.of_nat 0)%Z = 0%nat).
    { apply count_occ_not_In. intros Hin. apply get_layer_ipu_from_range in Hin. lia. }
    rewrite H0. lia.
  - rewrite count_occ_repeat_neq by lia.
    replace (a + Z.of_nat (S i))%Z with (a + 1 + Z.of_nat i)%Z by lia.
    rewrite IH. reflexivity.
Qed.

Lemma StronglySorted_firstn {V} (R : V -> V -> Prop) (n : nat) (l : list V) :
  StronglySorted R l -> StronglySorted R (firstn n l).
Proof.
  revert n; induction l as [|x l IH]; intros [|n] Hs; cbn [firstn]; [constructor..|].
  apply StronglySorted_inv in Hs as [Hs Hf]. constructor; [apply IH; exact Hs|].
  apply List.Forall_forall. intros y Hy. apply in_firstn in Hy.
  exact (proj1 (List.Forall_forall _ _) Hf y Hy).
Qed.

Lemma count_occ_firstn_le (n : nat) (l : list Z) (x : Z) :
  (count_occ Z.eq_dec (firstn n l) x <= count_occ Z.eq_dec l x)%nat.
Proof.
  rewrite <- (firstn_skipn n l) at 2. rewrite count_occ_app. lia.
Qed.

(** On success, the encoder's units are the first entries of the unit
    table, one per layer. *)
Lemma parallelize_ok_ipus {L} (ic : ipu_config) (stages : list (list L)) (p : placement L) :
  parallelize ic stages = Ok p ->
  (sum_list_with length stages <= length (get_layer_ipu (layers_per_ipu ic)))%nat /\
  map tag_ipu (encoder_tags p) =
    firstn (sum_list_with length stages) (get_layer_ipu (layers_per_ipu ic)).
Proof.
  unfold parallelize, mixin_parallelize.
  rewrite encoder_placement_spec. cbn zeta. rewrite length_stage_positions.
  set (N := sum_list_with length stages).
  set (table := get_layer_ipu (layers_per_ipu ic)).
  destruct (Nat.leb_spec N (length table)) as [Hle|Hle];
    unfold mbind, result_bind; simpl; [|discriminate].
  intros Hp. injection Hp as <-. simpl. split; [done|].
  assert (Hlen : length (stage_positions stages 0) = length (firstn N table))
    by (rewrite length_firstn, length_stage_positions; lia).
  destruct (zip_tags_fst _ _ Hlen) as [_ H]. exact H.
Qed.

(** X5. [parallelize] raises [IndexError] exactly when the encoder has
    more layers than the per-unit counts of [layers_per_ipu] add up to (a
    negative count counting as zero), and succeeds otherwise. *)
Theorem parallelize_fails_iff_too_many_layers {L} (ic : ipu_config) (stages : list (list L)) :
  (parallelize ic stages = Err IndexError <->
   (sum_list_with Z.to_nat (layers_per_ipu ic) < sum_list_with length stages)%nat) /\
  ((sum_list_with length stages <= sum_list_with Z.to_nat (layers_per_ipu ic))%nat ->
   exists p, parallelize ic stages = Ok p).
Proof.
  unfold parallelize, mixin_parallelize.
  rewrite encoder_placement_spec. cbn zeta.
  unfold get_layer_ipu. rewrite length_stage_positions, length_get_layer_ipu_from.
  destruct (Nat.leb_spec (sum_list_with length stages)
              (sum_list_with Z.to_nat (layers_per_ipu ic))) as [H|H];
    unfold mbind, result_bind; simpl.
  - split; [split; [discriminate | lia] | intros _; eexists; reflexivity].
  - split; [split; [intros _; lia | done] | intros; lia].
Qed.

(** X6. The pipeline only moves forward: along the encoder layers, in the
    order of the loop, the unit index never decreases. *)
Theorem parallelize_units_nondecreasing {L} (ic : ipu_config) (stages : list (list L))
    (p : placement L) :
  parallelize ic stages = Ok p ->
  StronglySorted Z.le (map tag_ipu (encoder_tags p)).
Proof.
  intros Hp. destruct (parallelize_ok_ipus ic stages p Hp) as [_ ->].
  apply StronglySorted_firstn. apply get_layer_ipu_from_sorted.
Qed.

(** X7. Unit [u] receives at most [layers_per_ipu[u]] encoder layers, and
    exactly that many when the encoder has as many layers as the counts add
    up to. *)
Theorem parallelize_unit_load {L} (ic : ipu_config) (stages : list (list L))
    (p : placement L) (u : nat) :
  parallelize ic stages = Ok p ->
  (count_occ Z.eq_dec (map tag_ipu (encoder_tags p)) (Z.of_nat u) <=
     Z.to_nat (nth u (layers_per_ipu ic) 0%Z))%nat /\
  (sum_list_with length stages = sum_list_with Z.to_nat (layers_per_ipu ic) ->
   count_occ Z.eq_dec (map tag_ipu (encoder_tags p)) (Z.of_nat u) =
     Z.to_nat (nth u (layers_per_ipu ic) 0%Z)).
Proof.
  intros Hp. destruct (parallelize_ok_ipus ic stages p Hp) as [_ ->].
  pose proof (count_get_layer_ipu_from 0 (layers_per_ipu ic) u) as Hc.
  rewrite Z.add_0_l in Hc. unfold get_layer_ipu. split.
  - rewrite <- Hc. apply count_occ_firstn_le.
  - intros Heq. rewrite Heq, <- (length_get_layer_ipu_from 0), firstn_all. exact Hc.
Qed.

Lemma parallelize_units_nondecreasing_witness :
  exists p, parallelize example_pipeline_ipu_config [[10%nat; 11%nat]; [12%nat]] = Ok p /\
    StronglySorted Z.le (map tag_ipu (encoder_tags p)).
Proof.
  eexists. split; [vm_compute; reflexivity|].
  apply (parallelize_units_nondecreasing example_pipeline_ipu_config
           [[10%nat; 11%nat]; [12%nat]]). vm_compute. reflexivity.
Defined.

Lemma parallelize_unit_load_witness :
  exists p, parallelize example_pipeline_ipu_config [[10%nat]; [11%nat]] = Ok p /\
    (count_occ Z.eq_dec (map tag_ipu (encoder_tags p)) (Z.of_nat 0) <=
       Z.to_nat (nth 0 (layers_per_ipu example_pipeline_ipu_config) 0%Z))%nat /\
    (sum_list_with length [[10%nat]; [11%nat]] =
       sum_list_with Z.to_nat (layers_per_ipu example_pipeline_ipu_config) ->
     count_occ Z.eq_dec (map tag_ipu (encoder_tags p)) (Z.of_nat 0) =
       Z.to_nat (nth 0 (layers_per_ipu example_pipeline_ipu_config) 0%Z)).
Proof.
  eexists. split; [vm_compute; reflexivity|].
  apply (parallelize_unit_load example_pipeline_ipu_config [[10%nat]; [11%nat]] _ 0).
  vm_compute. reflexivity.
Defined.


